(** * useAwait: the generation-tracked task hook of [src/index.ts]

    A shallow embedding of the hook's mutable cells (the [statuses] map, the
    [oldEffectRef] ref, the [result] state cell, the abort controllers) as an
    explicit record threaded through the closures the hook creates
    ([updateResult], [abort], [onfulfilled], [onrejected], [tick]) and through
    the block that runs whenever the dependencies change. *)

From stdpp Require Import base option list gmap.

(** ** Object identities

    JavaScript compares functions and controllers by reference.  A task
    function is named by a natural number (two submissions pass the same
    function exactly when they pass the same number); the objects the hook
    allocates itself (one [AbortController], one [abort] closure and one
    [tick] closure per run of the dependency block) are named by the index of
    the run that allocated them. *)

Abbreviation TaskRef := nat (only parsing).
Abbreviation ScopeRef := nat (only parsing).

(** [useAwait.Status] *)
Inductive Status : Set := running | aborted | fulfilled | rejected.

#[global] Instance Status_eq_dec : EqDecision Status.
Proof. solve_decision. Defined.

(** What a promise can be rejected with: one of the two module-private
    symbols, or anything else. *)
Inductive Thrown (E : Type) : Type :=
  | symbolInvalidate
  | symbolAborted
  | UserError (e : E).
Arguments symbolInvalidate {E}.
Arguments symbolAborted {E}.
Arguments UserError {E} e.

(** The [switch (error)] of [onrejected] takes its first branch on the two
    symbols. *)
Definition is_symbol {E} (error : Thrown E) : bool :=
  match error with
  | symbolInvalidate | symbolAborted => true
  | UserError _ => false
  end.

(** The [abort] closure: the variables of the render it was created in. *)
Record Abort : Set := mkAbort { abort_task : TaskRef; abort_controller : ScopeRef }.

(** The [tick] closure: its own identity (the run that allocated it) and the
    [task] variable it reads the map with. *)
Record Tick : Set := mkTick { tick_scope : ScopeRef; tick_task : TaskRef }.

#[global] Instance Abort_eq_dec : EqDecision Abort.
Proof. solve_decision. Defined.
#[global] Instance Tick_eq_dec : EqDecision Tick.
Proof. solve_decision. Defined.

(** [useAwait.Result<Value>] *)
Inductive Result (V E : Type) : Type :=
  | Fulfilled (value : V)
  | Rejected (error : Thrown E)
  | Running (abort : Abort)
  | Aborted.
Arguments Fulfilled {V E} value.
Arguments Rejected {V E} error.
Arguments Running {V E} abort.
Arguments Aborted {V E}.

Definition status {V E} (r : Result V E) : Status :=
  match r with
  | Fulfilled _ => fulfilled
  | Rejected _ => rejected
  | Running _ => running
  | Aborted => aborted
  end.

(** ** Promises, as far as [tick] needs them

    [new Promise(executor)] runs the executor at once; [resolve] and [reject]
    settle the promise if it is still pending. *)
Inductive Promise (A E : Type) : Type :=
  | pending
  | resolvedWith (a : A)
  | rejectedWith (e : E).
Arguments pending {A E}.
Arguments resolvedWith {A E} a.
Arguments rejectedWith {A E} e.

Definition resolve {A E} (a : A) (p : Promise A E) : Promise A E :=
  match p with pending => resolvedWith a | _ => p end.

Definition reject {A E} (e : E) (p : Promise A E) : Promise A E :=
  match p with pending => rejectedWith e | _ => p end.

Definition newPromise {A E} (executor : Promise A E → Promise A E) : Promise A E :=
  executor pending.

(** ** The hook's cells *)

(** Effects visible from outside, newest first. *)
Inductive Effect (V E : Type) : Type :=
  | SetResult (r : Result V E)
  | InvokeTask (task : TaskRef) (tick : Tick) (signal : ScopeRef).
Arguments SetResult {V E} r.
Arguments InvokeTask {V E} task tick signal.

Record Hook (V E : Type) : Type := mkHook {
  statuses : gmap nat Status;          (* Map<AsyncTask, Status> *)
  oldEffectRef : option nat;           (* useRef<AsyncTask | undefined> *)
  result : Result V E;                 (* useState<Result> *)
  signals : gset nat;                  (* controllers whose signal is aborted *)
  scopes : nat;                        (* runs of the dependency block so far *)
  effects : list (Effect V E);
}.
Arguments mkHook {V E}.
Arguments statuses {V E}.
Arguments oldEffectRef {V E}.
Arguments result {V E}.
Arguments signals {V E}.
Arguments scopes {V E}.
Arguments effects {V E}.

Section Hook.
Context {V E : Type}.

Local Abbreviation Hook := (Hook V E).
Local Abbreviation Result := (Result V E).

(** [setResult] *)
Definition setResult (r : Result) (st : Hook) : Hook :=
  mkHook (statuses st) (oldEffectRef st) r (signals st) (scopes st)
         (SetResult r :: effects st).

(** [updateResult], closed over [task] *)
Definition updateResult (task : TaskRef) (r : Result) (st : Hook) : Hook :=
  setResult r
    (mkHook (<[task := status r]> (statuses st)) (oldEffectRef st) (result st)
            (signals st) (scopes st) (effects st)).

(** [abortController.abort()] *)
Definition controllerAbort (c : ScopeRef) (st : Hook) : Hook :=
  mkHook (statuses st) (oldEffectRef st) (result st) ({[c]} ∪ signals st)
         (scopes st) (effects st).

(** [abort] *)
Definition abort (a : Abort) (st : Hook) : Hook :=
  if decide (statuses st !! abort_task a = Some running)
  then controllerAbort (abort_controller a) (updateResult (abort_task a) Aborted st)
  else st.

(** [onfulfilled], closed over [task] *)
Definition onfulfilled (task : TaskRef) (value : V) (st : Hook) : Hook :=
  match statuses st !! task with
  | None => st
  | Some aborted => st
  | Some _ => updateResult task (Fulfilled value) st
  end.

(** [onrejected], closed over [task] *)
Definition onrejected (task : TaskRef) (error : Thrown E) (st : Hook) : Hook :=
  match error with
  | symbolInvalidate => st
  | symbolAborted => st
  | _ => updateResult task (Rejected error) st
  end.

(** [tick]: the promise it returns, settled by the executor *)
Definition tick (k : Tick) (st : Hook) : Promise Tick (Thrown E) :=
  newPromise
    (match statuses st !! tick_task k with
     | None => reject symbolInvalidate
     | Some aborted => reject symbolAborted
     | Some _ => resolve k
     end).

(** [if (oldEffectRef.current) statuses.delete(oldEffectRef.current)] *)
Definition invalidateOld (st : Hook) : Hook :=
  match oldEffectRef st with
  | Some old =>
      mkHook (delete old (statuses st)) (oldEffectRef st) (result st)
             (signals st) (scopes st) (effects st)
  | None => st
  end.

(** [oldEffectRef.current = task] *)
Definition rememberTask (task : TaskRef) (st : Hook) : Hook :=
  mkHook (statuses st) (Some task) (result st) (signals st) (scopes st)
         (effects st).

(** [task(scheduler).then(onfulfilled).catch(onrejected)]: the task is called;
    its handlers run later, each from a later job. *)
Definition startTask (task : TaskRef) (st : Hook) : Hook :=
  mkHook (statuses st) (oldEffectRef st) (result st) (signals st)
         (S (scopes st))
         (InvokeTask task (mkTick (scopes st) task) (scopes st) :: effects st).

(** The part of the dependency block before the task is called. *)
Definition prepare (task : TaskRef) (st : Hook) : Hook :=
  rememberTask task
    (invalidateOld
       (updateResult task (Running (mkAbort task (scopes st))) st)).

(** The block that "runs only if the dependencies changed". *)
Definition dependencyBlock (task : TaskRef) (st : Hook) : Hook :=
  startTask task (prepare task st).

(** The cells as the first render's initialisers leave them, before the
    dependency block runs for the first time. *)
Definition firstRender (task : TaskRef) : Hook :=
  mkHook ∅ None (Running (mkAbort task 0)) ∅ 0 [].

Definition mount (task : TaskRef) : Hook :=
  dependencyBlock task (firstRender task).

(** [useAwait] called again by a later render: the memoised block runs only
    when the dependencies changed; the [task] of any other render is dropped. *)
Definition useAwait (task : TaskRef) (changed : bool) (st : Hook) : Hook :=
  if changed then dependencyBlock task st else st.

(** ** What can happen to a mounted hook *)
Inductive Event : Type :=
  | Render (task : TaskRef) (changed : bool)
  | CallAbort (a : Abort)
  | TaskFulfils (task : TaskRef) (value : V)
  | TaskRejects (task : TaskRef) (error : Thrown E).

Definition step (ev : Event) (st : Hook) : Hook :=
  match ev with
  | Render task changed => useAwait task changed st
  | CallAbort a => abort a st
  | TaskFulfils task value => onfulfilled task value st
  | TaskRejects task error => onrejected task error st
  end.

Fixpoint run (evs : list Event) (st : Hook) : Hook :=
  match evs with
  | [] => st
  | ev :: evs' => run evs' (step ev st)
  end.



(** ** Predicates on states and traces *)

(** Only the function remembered in [oldEffectRef] can be tracked as running. *)
Definition running_is_current (st : Hook) : Prop :=
  ∀ x, statuses st !! x = Some running → oldEffectRef st = Some x.


(** A result that would show one of the two symbols to the consumer. *)
Definition surfaces_symbol (r : Result) : bool :=
  match r with
  | Rejected error => is_symbol error
  | _ => false
  end.

Definition effect_clean (eff : Effect V E) : bool :=
  match eff with
  | SetResult r => negb (surfaces_symbol r)
  | InvokeTask _ _ _ => true
  end.

(** Neither the result cell nor any result set so far shows a symbol. *)
Definition clean (st : Hook) : Prop :=
  surfaces_symbol (result st) = false ∧ forallb effect_clean (effects st) = true.

(** In a trace (newest first), every call of a task comes right after the
    running result of its own submission was set. *)
Fixpoint announced (l : list (Effect V E)) : bool :=
  match l with
  | [] => true
  | InvokeTask task _ c :: l' =>
      match l' with
      | SetResult (Running a) :: _ => bool_decide (a = mkAbort task c) && announced l'
      | _ => false
      end
  | SetResult _ :: l' => announced l'
  end.

(** Events of the generations that run [task] which are not a rejection with
    a user error, and renders that leave the dependencies alone. *)
Definition quiet_event (task : TaskRef) (ev : Event) : bool :=
  match ev with
  | Render _ changed => negb changed
  | CallAbort a => bool_decide (abort_task a = task)
  | TaskFulfils t _ => bool_decide (t = task)
  | TaskRejects t error => bool_decide (t = task) && is_symbol error
  end.

(** ** The promise chain and bookkeeping over runs *)

(** [.then(onfulfilled).catch(onrejected)] on the promise the task returned:
    nothing runs while it is pending; neither handler throws, so [catch] only
    ever sees the task's own rejection. *)
Definition thenCatch (task : TaskRef) (p : Promise V (Thrown E)) (st : Hook) : Hook :=
  match p with
  | pending => st
  | resolvedWith value => onfulfilled task value st
  | rejectedWith error => onrejected task error st
  end.

(** The promise of an async task suspended at [tick = await tick()] that does
    not catch: a rejection of [tick] rejects the task with the same value;
    otherwise the task goes on. *)
Definition awaitTick (k : Tick) (st : Hook) : Promise V (Thrown E) :=
  match tick k st with
  | rejectedWith error => rejectedWith error
  | _ => pending
  end.

(** The functions the renders with changed dependencies submit, in order. *)
Fixpoint submitted (evs : list Event) : list TaskRef :=
  match evs with
  | [] => []
  | Render task true :: evs' => task :: submitted evs'
  | _ :: evs' => submitted evs'
  end.

(** The controllers of the [abort] closures a run calls. *)
Fixpoint aborters (evs : list Event) : list ScopeRef :=
  match evs with
  | [] => []
  | CallAbort a :: evs' => abort_controller a :: aborters evs'
  | _ :: evs' => aborters evs'
  end.

(** The task calls of a trace, oldest first, each with the controller whose
    signal it was handed. *)
Definition calls (l : list (Effect V E)) : list (TaskRef * ScopeRef) :=
  rev (omap (λ eff, match eff with
                    | InvokeTask task _ c => Some (task, c)
                    | SetResult _ => None
                    end) l).

(** Every [abort] the run calls is a closure that exists when it is called. *)
Fixpoint aborts_exist (evs : list Event) (st : Hook) : bool :=
  match evs with
  | [] => true
  | ev :: evs' =>
      match ev with
      | CallAbort a => bool_decide (abort_controller a < scopes st)
      | _ => true
      end && aborts_exist evs' (step ev st)
  end.

(** A rejection with a user error of a function other than the remembered
    one. *)
Definition stale_rejection (ev : Event) (st : Hook) : bool :=
  match ev with
  | TaskRejects task error =>
      negb (is_symbol error) && negb (bool_decide (oldEffectRef st = Some task))
  | _ => false
  end.

Fixpoint no_stale_rejections (evs : list Event) (st : Hook) : bool :=
  match evs with
  | [] => true
  | ev :: evs' => negb (stale_rejection ev st) && no_stale_rejections evs' (step ev st)
  end.

(** Every tracked function is the remembered one. *)
Definition only_current (st : Hook) : Prop :=
  ∀ x, is_Some (statuses st !! x) → oldEffectRef st = Some x.

(** Every flipped signal belongs to a controller that exists. *)
Definition signals_allocated (st : Hook) : Prop :=
  ∀ c, c ∈ signals st → c < scopes st.

(** A running result carries the [abort] of the latest submission. *)
Definition offered_abort_latest (st : Hook) : Prop :=
  ∀ a, result st = Running a →
       oldEffectRef st = Some (abort_task a) ∧ S (abort_controller a) = scopes st.

(** ** Generations

    A submission makes one [tick] and one [abort] closure; both carry the
    submitted function and the index of the submission's controller. *)

(** The closure with this function and this index was made by a submission
    recorded in the trace. *)
Definition issued (task : TaskRef) (c : ScopeRef) (st : Hook) : Prop :=
  (task, c) ∈ calls (effects st).

#[global] Instance issued_dec task c st : Decision (issued task c st).
Proof. unfold issued. apply _. Defined.

(** The index is that of the latest submission. *)
Definition latest (c : ScopeRef) (st : Hook) : Prop := S c = scopes st.

#[global] Instance latest_dec c st : Decision (latest c st).
Proof. unfold latest. apply _. Defined.


End Hook.


Arguments Event : clear implicits.

(** * Properties *)

Section Properties.
Context {V E : Type}.

Local Abbreviation Hook := (Hook V E).
Local Abbreviation Result := (Result V E).
Local Abbreviation Event := (Event V E).

Implicit Types (st : Hook) (r : Result) (a : Abort) (k : Tick)
  (task : nat) (ev : Event) (evs : list Event).

(** ** The closures, cell by cell *)

Lemma updateResult_statuses task r st x :
  statuses (updateResult task r st) !! x
  = if decide (task = x) then Some (status r) else statuses st !! x.
Proof. cbn. apply lookup_insert. Qed.

Lemma abort_running a st :
  statuses st !! abort_task a = Some running →
  abort a st
  = mkHook (<[abort_task a := aborted]> (statuses st)) (oldEffectRef st)
           Aborted ({[abort_controller a]} ∪ signals st) (scopes st)
           (SetResult Aborted :: effects st).
Proof. intros Hrun. unfold abort. by rewrite decide_True. Qed.

Lemma abort_not_running a st :
  statuses st !! abort_task a ≠ Some running → abort a st = st.
Proof. intros Hnot. unfold abort. by rewrite decide_False. Qed.


Lemma tick_cases k st :
  tick k st
  = match statuses st !! tick_task k with
    | None => rejectedWith symbolInvalidate
    | Some aborted => rejectedWith symbolAborted
    | Some _ => resolvedWith k
    end.
Proof. unfold tick, newPromise. by destruct (statuses st !! tick_task k) as [[]|]. Qed.

Lemma onfulfilled_discarded task (value : V) st :
  statuses st !! task = None ∨ statuses st !! task = Some aborted →
  onfulfilled task value st = st.
Proof. unfold onfulfilled. by intros [-> | ->]. Qed.

Lemma onfulfilled_delivered task (value : V) st :
  statuses st !! task ≠ None → statuses st !! task ≠ Some aborted →
  onfulfilled task value st = updateResult task (Fulfilled value) st.
Proof. unfold onfulfilled. by destruct (statuses st !! task) as [[]|]. Qed.

Lemma onrejected_symbol task (error : Thrown E) st :
  is_symbol error = true → onrejected task error st = st.
Proof. by destruct error. Qed.

Lemma onrejected_user task (e : E) st :
  onrejected task (UserError e) st = updateResult task (Rejected (UserError e)) st.
Proof. reflexivity. Qed.

(** The dependency block, cell by cell. *)
Lemma dependencyBlock_statuses task st x :
  statuses (dependencyBlock task st) !! x
  = if decide (oldEffectRef st = Some x) then None
    else if decide (task = x) then Some running
    else statuses st !! x.
Proof.
  unfold dependencyBlock, prepare, invalidateOld. cbn.
  destruct (oldEffectRef st) as [old|]; cbn.
  - rewrite lookup_delete, lookup_insert.
    destruct (decide (old = x)) as [->|Hne].
    + by rewrite decide_True.
    + destruct (decide (Some old = Some x)); [congruence | done].
  - apply lookup_insert.
Qed.

Lemma dependencyBlock_result task st :
  result (dependencyBlock task st) = Running (mkAbort task (scopes st)).
Proof. unfold dependencyBlock, prepare, invalidateOld. cbn. by destruct (oldEffectRef st). Qed.

Lemma dependencyBlock_oldEffectRef task st :
  oldEffectRef (dependencyBlock task st) = Some task.
Proof. reflexivity. Qed.

Lemma run_app evs1 evs2 st : run (evs1 ++ evs2) st = run evs2 (run evs1 st).
Proof. revert st. induction evs1 as [|ev evs1 IH]; intros st; cbn; [done | apply IH]. Qed.

(** ** Invariants of every run *)

Lemma running_is_current_mount task : running_is_current (V:=V) (E:=E) (mount task).
Proof.
  intros x Hx. unfold mount in *. rewrite dependencyBlock_statuses in Hx.
  rewrite dependencyBlock_oldEffectRef. cbn in Hx.
  destruct (decide (task = x)) as [->|]; [done|].
  by rewrite lookup_empty in Hx.
Qed.

Lemma running_is_current_updateResult task r st :
  status r ≠ running →
  running_is_current st → running_is_current (updateResult task r st).
Proof.
  intros Hr Hinv x Hx. rewrite updateResult_statuses in Hx.
  destruct (decide (task = x)); [congruence|]. by apply Hinv.
Qed.

Lemma running_is_current_step ev st :
  running_is_current st → running_is_current (step ev st).
Proof.
  intros Hinv. destruct ev as [task [|]|a|task value|task error]; cbn; try done.
  - intros x Hx. rewrite dependencyBlock_statuses in Hx.
    rewrite dependencyBlock_oldEffectRef.
    destruct (decide (oldEffectRef st = Some x)) as [|Hold]; [done|].
    destruct (decide (task = x)) as [->|]; [done|].
    by destruct Hold; apply Hinv.
  - unfold abort. case_decide; [|done].
    intros x Hx. apply Hinv. cbn in Hx.
    rewrite lookup_insert in Hx. by case_decide.
  - unfold onfulfilled.
    destruct (statuses st !! task) as [[]|]; try done;
      by apply running_is_current_updateResult.
  - destruct error; try done. by apply running_is_current_updateResult.
Qed.

Lemma running_is_current_run evs st :
  running_is_current st → running_is_current (run evs st).
Proof.
  revert st. induction evs as [|ev evs IH]; intros st Hinv; cbn; [done|].
  by apply IH, running_is_current_step.
Qed.





(** ** tick *)

(** C8 as amended: while the entry of its task is running, [tick] resolves
    with a function for the next checkpoint, and that function is the very
    closure that was called, so the original and the returned function give
    the same answer in every later state; the answer depends on the state at
    the call only. *)
Theorem tick_resolves_with_itself k st :
  statuses st !! tick_task k = Some running →
  tick k st = resolvedWith k
  ∧ (∀ next, tick k st = resolvedWith next →
       next = k ∧ ∀ st' : Hook, tick next st' = tick k st').
Proof.
  intros Hrun. rewrite tick_cases, Hrun. split; [done|].
  intros next Hnext. injection Hnext as <-. done.
Qed.

(** ** The tracker *)

Lemma step_keeps_entry ev st x :
  is_Some (statuses st !! x) → statuses (step ev st) !! x = None →
  oldEffectRef st = Some x ∧ ∃ task, ev = Render task true.
Proof.
  intros [s Hs] Hgone.
  destruct ev as [task [|]|a|task value|task error]; cbn [step useAwait] in Hgone.
  - rewrite dependencyBlock_statuses in Hgone.
    destruct (decide (oldEffectRef st = Some x)); [by eauto|].
    destruct (decide (task = x)); congruence.
  - congruence.
  - unfold abort in Hgone. case_decide; [|congruence].
    cbn in Hgone. rewrite lookup_insert in Hgone. case_decide; congruence.
  - unfold onfulfilled in Hgone.
    destruct (statuses st !! task) as [[]|] eqn:Ht; try congruence;
      rewrite updateResult_statuses in Hgone; case_decide; congruence.
  - destruct error; cbn [onrejected] in Hgone; try congruence.
    rewrite updateResult_statuses in Hgone. case_decide; congruence.
Qed.

(** C3 as amended: every result set for a task is recorded in the tracker
    under its status, so a tracked function reads running, aborted, fulfilled
    or rejected; a delivered settlement overwrites the entry with fulfilled
    (or rejected) and does not remove it; an entry disappears only when a
    later submission deletes the function remembered in [oldEffectRef]. *)
Theorem settlement_overwrites_entry :
  (∀ task r st, statuses (updateResult task r st) !! task = Some (status r))
  ∧ (∀ task (value : V) st,
       statuses st !! task = Some running →
       statuses (onfulfilled task value st) !! task = Some fulfilled)
  ∧ (∀ task (e : E) st,
       statuses (onrejected task (UserError e) st) !! task = Some rejected)
  ∧ (∀ ev st x,
       is_Some (statuses st !! x) → statuses (step ev st) !! x = None →
       oldEffectRef st = Some x ∧ ∃ task, ev = Render task true).
Proof.
  split; [|split; [|split]].
  - intros task r st. rewrite updateResult_statuses. by rewrite decide_True.
  - intros task value st Hrun. unfold onfulfilled. rewrite Hrun.
    rewrite updateResult_statuses. by rewrite decide_True.
  - intros task e st. rewrite onrejected_user, updateResult_statuses.
    by rewrite decide_True.
  - apply step_keeps_entry.
Qed.

(** ** Submission *)

Lemma dependencyBlock_effects task st :
  effects (dependencyBlock task st)
  = InvokeTask task (mkTick (scopes st) task) (scopes st)
      :: SetResult (Running (mkAbort task (scopes st))) :: effects st.
Proof.
  unfold dependencyBlock, prepare, invalidateOld. cbn.
  by destruct (oldEffectRef st).
Qed.

Lemma announced_step ev st :
  announced (effects st) = true → announced (effects (step ev st)) = true.
Proof.
  intros Hinv.
  destruct ev as [task [|]|a|task value|task error]; cbn [step useAwait]; try done.
  - rewrite dependencyBlock_effects. cbn [announced].
    by rewrite bool_decide_eq_true_2.
  - unfold abort. by case_decide.
  - unfold onfulfilled. by destruct (statuses st !! task) as [[]|].
  - by destruct error.
Qed.

Lemma announced_run evs st :
  announced (effects st) = true → announced (effects (run evs st)) = true.
Proof.
  revert st. induction evs as [|ev evs IH]; intros st Hinv; cbn; [done|].
  by apply IH, announced_step.
Qed.

(** C6: the result cell is initialised running; in the dependency block the
    running result of the new submission (with its own [abort]) is set before
    the task is called, it is what the cell holds at the call and when the
    block returns, and in the trace of every run each call of a task comes
    right after the running result of its submission. *)
Theorem running_set_before_task_starts :
  (∀ task, result (firstRender (V:=V) (E:=E) task) = Running (mkAbort task 0))
  ∧ (∀ task st,
       result (prepare task st) = Running (mkAbort task (scopes st))
       ∧ effects (dependencyBlock task st)
         = InvokeTask task (mkTick (scopes st) task) (scopes st)
             :: SetResult (Running (mkAbort task (scopes st))) :: effects st
       ∧ result (dependencyBlock task st) = Running (mkAbort task (scopes st)))
  ∧ (∀ task evs,
       announced (effects (run evs (mount (V:=V) (E:=E) task))) = true).
Proof.
  split; [done|split].
  - intros task st. split; [|split].
    + unfold prepare, invalidateOld. cbn. by destruct (oldEffectRef st).
    + apply dependencyBlock_effects.
    + apply dependencyBlock_result.
  - intros task evs. apply announced_run. cbn. by rewrite bool_decide_eq_true_2.
Qed.

(** ** The two symbols *)

Lemma clean_updateResult task r st :
  surfaces_symbol r = false → clean st → clean (updateResult task r st).
Proof. intros Hr [Hres Heff]. split; cbn; [done|]. by rewrite Hr. Qed.

Lemma clean_step ev st : clean st → clean (step ev st).
Proof.
  intros Hinv.
  destruct ev as [task [|]|a|task value|task error]; cbn [step useAwait]; try done.
  - destruct Hinv as [Hres Heff]. unfold clean.
    by rewrite dependencyBlock_result, dependencyBlock_effects.
  - unfold abort. case_decide; [|done].
    destruct Hinv as [Hres Heff]. by split; cbn.
  - unfold onfulfilled.
    destruct (statuses st !! task) as [[]|]; try done;
      by apply clean_updateResult.
  - destruct error; try done; by apply clean_updateResult.
Qed.

Lemma clean_run evs st : clean st → clean (run evs st).
Proof.
  revert st. induction evs as [|ev evs IH]; intros st Hinv; cbn; [done|].
  by apply IH, clean_step.
Qed.

(** C7: [onrejected] drops a rejection that carries one of the two symbols
    and changes nothing; in every run neither the result cell nor any result
    ever set holds a rejection with a symbol, so a rejected result never
    carries one. *)
Theorem symbols_never_surface :
  (∀ task st,
     onrejected task symbolInvalidate st = st
     ∧ onrejected task symbolAborted st = st)
  ∧ (∀ task evs,
       surfaces_symbol (result (run evs (mount (V:=V) (E:=E) task))) = false
       ∧ forallb effect_clean (effects (run evs (mount (V:=V) (E:=E) task))) = true)
  ∧ (∀ task evs (error : Thrown E),
       result (run evs (mount task)) = Rejected error →
       error ≠ symbolInvalidate ∧ error ≠ symbolAborted).
Proof.
  assert (∀ task evs, clean (run evs (mount (V:=V) (E:=E) task))) as Hclean.
  { intros task evs. apply clean_run. by split. }
  split; [done|split; [apply Hclean|]].
  intros task evs error Hres. destruct (Hclean task evs) as [Hsym _].
  rewrite Hres in Hsym. by destruct error.
Qed.

(** ** Submitting the same function twice in a row *)

Lemma quiet_step task ev st :
  statuses st !! task = None → quiet_event task ev = true → step ev st = st.
Proof.
  intros Hnone Hq.
  destruct ev as [t [|]|a|t value|t error]; cbn in *; try done.
  - apply bool_decide_eq_true in Hq. apply abort_not_running.
    by rewrite Hq, Hnone.
  - apply bool_decide_eq_true in Hq as ->. apply onfulfilled_discarded. by left.
  - apply andb_true_iff in Hq as [_ Hsym]. by apply onrejected_symbol.
Qed.

Lemma quiet_run task evs st :
  statuses st !! task = None → forallb (quiet_event task) evs = true →
  run evs st = st.
Proof.
  intros Hnone. induction evs as [|ev evs IH]; cbn; [done|].
  intros [Hev Hevs]%andb_true_iff. rewrite (quiet_step task ev st Hnone Hev).
  by apply IH.
Qed.

(** C10 as amended: when a submission passes the function of the generation
    before it, the block registers it as running and then deletes that very
    entry.  From then on, as long as the task's own generations only call
    [tick], fulfil, reject with a symbol or have their [abort] called, the
    state does not move: every such [tick] rejects as invalidated, the
    fulfilment is dropped and the result stays running.  A rejection with a
    user error is still delivered: the result becomes rejected and the
    function is entered in the tracker again, as rejected. *)
Theorem same_task_invalidates_itself task st :
  oldEffectRef st = Some task →
  statuses (dependencyBlock task st) !! task = None
  ∧ result (dependencyBlock task st) = Running (mkAbort task (scopes st))
  ∧ (∀ evs,
       forallb (quiet_event task) evs = true →
       run evs (dependencyBlock task st) = dependencyBlock task st
       ∧ ∀ k, tick_task k = task →
           tick k (run evs (dependencyBlock task st)) = rejectedWith symbolInvalidate)
  ∧ (∀ (value : V),
       onfulfilled task value (dependencyBlock task st) = dependencyBlock task st)
  ∧ (∀ (e : E),
       result (onrejected task (UserError e) (dependencyBlock task st))
       = Rejected (UserError e)
       ∧ statuses (onrejected task (UserError e) (dependencyBlock task st)) !! task
         = Some rejected).
Proof.
  intros Hold.
  assert (statuses (dependencyBlock task st) !! task = None) as Hnone.
  { rewrite dependencyBlock_statuses. by rewrite decide_True. }
  split; [done|]. split; [apply dependencyBlock_result|].
  split; [|split].
  - intros evs Hq. rewrite (quiet_run task evs _ Hnone Hq). split; [done|].
    intros k <-. by rewrite tick_cases, Hnone.
  - intros value. apply onfulfilled_discarded. by left.
  - intros e. rewrite onrejected_user. split; [done|].
    rewrite updateResult_statuses. by rewrite decide_True.
Qed.

(** ** Late settlements *)

(** A generation replaced by a submission with another function has its
    fulfilment dropped. *)
Lemma superseded_fulfilment_dropped st t1 t2 (value : V) :
  oldEffectRef st = Some t1 → t1 ≠ t2 →
  onfulfilled t1 value (dependencyBlock t2 st) = dependencyBlock t2 st.
Proof.
  intros Hold Hne. apply onfulfilled_discarded. left.
  rewrite dependencyBlock_statuses. by rewrite decide_True.
Qed.

(** [onrejected] never reads the tracker: a user error is delivered whatever
    the entry of its task says. *)
Lemma user_rejection_always_delivered task (e : E) st :
  result (onrejected task (UserError e) st) = Rejected (UserError e)
  ∧ statuses (onrejected task (UserError e) st) !! task = Some rejected.
Proof.
  rewrite onrejected_user. split; [done|].
  rewrite updateResult_statuses. by rewrite decide_True.
Qed.

End Properties.

(** * Further properties of runs *)

Section Runs.
Context {V E : Type}.

Local Abbreviation Hook := (Hook V E).
Local Abbreviation Result := (Result V E).
Local Abbreviation Event := (Event V E).

Implicit Types (st : Hook) (r : Result) (a : Abort) (k : Tick)
  (task : nat) (ev : Event) (evs : list Event).

(** ** What one event does to each cell *)

Lemma step_oldEffectRef ev st :
  oldEffectRef (step ev st)
  = match ev with
    | Render task true => Some task
    | _ => oldEffectRef st
    end.
Proof.
  destruct ev as [task [|]|a|task value|task error]; cbn [step useAwait]; try done.
  - unfold abort. by case_decide.
  - unfold onfulfilled. by destruct (statuses st !! task) as [[]|].
  - by destruct error.
Qed.

Lemma step_scopes ev st :
  scopes (step ev st)
  = match ev with
    | Render _ true => S (scopes st)
    | _ => scopes st
    end.
Proof.
  destruct ev as [task [|]|a|task value|task error]; cbn [step useAwait]; try done.
  - unfold dependencyBlock, prepare, invalidateOld. cbn.
    by destruct (oldEffectRef st).
  - unfold abort. by case_decide.
  - unfold onfulfilled. by destruct (statuses st !! task) as [[]|].
  - by destruct error.
Qed.

Lemma step_signals ev st :
  signals (step ev st)
  = match ev with
    | CallAbort a =>
        if decide (statuses st !! abort_task a = Some running)
        then {[abort_controller a]} ∪ signals st else signals st
    | _ => signals st
    end.
Proof.
  destruct ev as [task [|]|a|task value|task error]; cbn [step useAwait]; try done.
  - unfold dependencyBlock, prepare, invalidateOld. cbn.
    by destruct (oldEffectRef st).
  - unfold abort. by case_decide.
  - unfold onfulfilled. by destruct (statuses st !! task) as [[]|].
  - by destruct error.
Qed.

Lemma step_calls ev st :
  calls (effects (step ev st))
  = match ev with
    | Render task true => calls (effects st) ++ [(task, scopes st)]
    | _ => calls (effects st)
    end.
Proof.
  destruct ev as [task [|]|a|task value|task error]; cbn [step useAwait]; try done.
  - by rewrite dependencyBlock_effects.
  - unfold abort. by case_decide.
  - unfold onfulfilled. by destruct (statuses st !! task) as [[]|].
  - by destruct error.
Qed.

Lemma dependencyBlock_scopes task st :
  scopes (dependencyBlock task st) = S (scopes st).
Proof. apply (step_scopes (Render task true) st). Qed.

Lemma dependencyBlock_signals task st :
  signals (dependencyBlock task st) = signals st.
Proof. apply (step_signals (Render task true) st). Qed.

(** ** The tracker over a run *)

(** X1: in every run at most one function is tracked as running. *)
Theorem running_entry_unique task evs x y :
  statuses (run evs (mount (V:=V) (E:=E) task)) !! x = Some running →
  statuses (run evs (mount (V:=V) (E:=E) task)) !! y = Some running →
  x = y.
Proof.
  intros Hx Hy.
  pose proof (running_is_current_run evs (mount task)
                (running_is_current_mount task)) as Hinv.
  apply Hinv in Hx. apply Hinv in Hy. congruence.
Qed.

Lemma only_current_step ev st :
  stale_rejection ev st = false → only_current st → only_current (step ev st).
Proof.
  intros Hstale Hinv x Hx. rewrite step_oldEffectRef.
  destruct ev as [task [|]|a|task value|task error]; cbn [step useAwait] in Hx;
    try by apply Hinv.
  - rewrite dependencyBlock_statuses in Hx.
    destruct (decide (oldEffectRef st = Some x)) as [|Hold];
      [by destruct Hx as [? ?]|].
    destruct (decide (task = x)) as [->|]; [done|]. by destruct Hold; apply Hinv.
  - apply Hinv. unfold abort in Hx. case_decide as Hrun; [|done].
    cbn in Hx. rewrite lookup_insert in Hx.
    case_decide as Heq; [|done]. rewrite <- Heq. by rewrite Hrun.
  - apply Hinv. unfold onfulfilled in Hx.
    destruct (statuses st !! task) as [[]|] eqn:Ht; try done;
      rewrite updateResult_statuses in Hx;
      (case_decide as Heq; [rewrite <- Heq; by rewrite Ht | done]).
  - destruct error; cbn [onrejected] in Hx; try by apply Hinv.
    rewrite updateResult_statuses in Hx. case_decide as Heq; [|by apply Hinv].
    cbn in Hstale. apply negb_false_iff, bool_decide_eq_true in Hstale.
    by rewrite <- Heq.
Qed.

Lemma only_current_run evs st :
  no_stale_rejections evs st = true → only_current st → only_current (run evs st).
Proof.
  revert st. induction evs as [|ev evs IH]; intros st Hok Hinv; cbn; [done|].
  cbn in Hok. apply andb_true_iff in Hok as [Hev Hrest].
  apply IH; [done|]. apply only_current_step; [|done]. by apply negb_true_iff.
Qed.

Lemma only_current_mount task : only_current (V:=V) (E:=E) (mount task).
Proof.
  intros x Hx. unfold mount in *. rewrite dependencyBlock_statuses in Hx.
  rewrite dependencyBlock_oldEffectRef. cbn in Hx.
  destruct (decide (task = x)) as [->|]; [done|].
  rewrite lookup_empty in Hx. by destruct Hx.
Qed.

(** X2: as long as no function other than the remembered one rejects with a
    user error, the map tracks the remembered function only, so it never
    holds more than one entry. *)
Theorem tracker_holds_only_current task evs :
  no_stale_rejections evs (mount (V:=V) (E:=E) task) = true →
  (∀ x, is_Some (statuses (run evs (mount (V:=V) (E:=E) task)) !! x) →
        oldEffectRef (run evs (mount (V:=V) (E:=E) task)) = Some x)
  ∧ size (statuses (run evs (mount (V:=V) (E:=E) task))) ≤ 1.
Proof.
  intros Hok.
  pose proof (only_current_run evs (mount task) Hok (only_current_mount task))
    as Hinv.
  split; [done|].
  destruct (oldEffectRef (run evs (mount (V:=V) (E:=E) task))) as [c|] eqn:Hc.
  - rewrite <- size_dom, <- (size_singleton (C:=gset nat) c).
    apply subseteq_size. intros x Hx%elem_of_dom.
    apply Hinv in Hx. rewrite Hc in Hx. injection Hx as ->. set_solver.
  - assert (statuses (run evs (mount (V:=V) (E:=E) task)) = ∅) as ->.
    { apply map_empty. intros x.
      destruct (statuses _ !! x) eqn:Hx; [|done].
      assert (is_Some (statuses (run evs (mount (V:=V) (E:=E) task)) !! x)) as Hs
        by (by rewrite Hx).
      apply Hinv in Hs. congruence. }
    rewrite map_size_empty. lia.
Qed.

Lemma entry_persists evs st x :
  is_Some (statuses st !! x) → oldEffectRef st ≠ Some x → x ∉ submitted evs →
  is_Some (statuses (run evs st) !! x).
Proof.
  revert st. induction evs as [|ev evs IH]; intros st Hx Hold Hsub; cbn; [done|].
  apply IH.
  - destruct (statuses (step ev st) !! x) eqn:Hstep; [done|].
    by destruct (step_keeps_entry ev st x Hx Hstep) as [? _].
  - rewrite step_oldEffectRef.
    destruct ev as [task [|]|a|task value|task error]; try done.
    cbn in Hsub. intros [= ->]. set_solver.
  - by destruct ev as [task [|]|a|task value|task error]; cbn in Hsub; set_solver.
Qed.

(** X3: when a function other than the remembered one rejects with a user
    error, it is entered in the map and stays there for as long as that
    function is not submitted again. *)
Theorem stale_rejection_entry_persists st x (e : E) evs :
  oldEffectRef st ≠ Some x → x ∉ submitted evs →
  is_Some (statuses (run evs (onrejected x (UserError e) st)) !! x).
Proof.
  intros Hold Hsub. apply entry_persists; [|done|done].
  rewrite onrejected_user, updateResult_statuses. by rewrite decide_True.
Qed.

(** ** The signals over a run *)

(** X4: a signal once flipped stays flipped, and a signal is flipped only by
    the call of an [abort] closure of its own controller: renders,
    submissions and settlements never flip one, so a run that calls no
    [abort] leaves every signal as it was. *)
Theorem signals_flipped_only_by_abort evs st :
  signals st ⊆ signals (run evs st)
  ∧ (∀ c, c ∈ signals (run evs st) → c ∈ signals st ∨ c ∈ aborters evs)
  ∧ (aborters evs = [] → signals (run evs st) = signals st).
Proof.
  assert (signals st ⊆ signals (run evs st)
          ∧ ∀ c, c ∈ signals (run evs st) → c ∈ signals st ∨ c ∈ aborters evs)
    as [Hmono Horigin].
  { revert st. induction evs as [|ev evs IH]; intros st; cbn [run].
    - split; [done|]. by left.
    - destruct (IH (step ev st)) as [Hmono Horigin].
      rewrite step_signals in Hmono, Horigin. split.
      + destruct ev as [task changed|a|task value|task error]; try done.
        case_decide; [|done]. etrans; [apply union_subseteq_r | done].
      + intros c Hc. apply Horigin in Hc.
        destruct ev as [task changed|a|task value|task error]; cbn [aborters];
          try done.
        destruct Hc as [Hc|Hc]; [|right; by apply elem_of_cons; right].
        case_decide; [|by left].
        apply elem_of_union in Hc as [->%elem_of_singleton|Hc]; [|by left].
        right. by apply elem_of_cons; left. }
  split; [done|]. split; [done|].
  intros Hnone. apply set_eq. intros c. split; [|by apply Hmono].
  intros Hc. apply Horigin in Hc as [Hc|Hc]; [done|].
  rewrite Hnone in Hc. set_solver.
Qed.

Lemma signals_allocated_step ev st :
  match ev with
  | CallAbort a => abort_controller a < scopes st
  | _ => True
  end →
  signals_allocated st → signals_allocated (step ev st).
Proof.
  intros Hex Hinv c. rewrite step_signals, step_scopes.
  destruct ev as [task [|]|a|task value|task error]; intros Hc;
    try by apply Hinv.
  - apply Hinv in Hc. lia.
  - case_decide; [|by apply Hinv].
    apply elem_of_union in Hc as [->%elem_of_singleton|Hc]; [done | by apply Hinv].
Qed.

Lemma signals_allocated_run evs st :
  aborts_exist evs st = true → signals_allocated st →
  signals_allocated (run evs st).
Proof.
  revert st. induction evs as [|ev evs IH]; intros st Hex Hinv; cbn; [done|].
  cbn in Hex. apply andb_true_iff in Hex as [Hev Hrest].
  apply IH; [done|]. apply signals_allocated_step; [|done].
  destruct ev as [task changed|a|task value|task error]; try done.
  by apply bool_decide_eq_true in Hev.
Qed.

(** X5: in a run that only calls [abort] closures that exist, every task is
    called with the signal of a controller of its own that is not flipped at
    the call. *)
Theorem new_signal_not_aborted task evs task' :
  aborts_exist evs (mount (V:=V) (E:=E) task) = true →
  effects (dependencyBlock task' (run evs (mount (V:=V) (E:=E) task)))
  = InvokeTask task' (mkTick (scopes (run evs (mount task))) task')
               (scopes (run evs (mount task)))
      :: SetResult (Running (mkAbort task' (scopes (run evs (mount task)))))
      :: effects (run evs (mount task))
  ∧ scopes (run evs (mount (V:=V) (E:=E) task))
    ∉ signals (dependencyBlock task' (run evs (mount (V:=V) (E:=E) task))).
Proof.
  intros Hex. split; [apply dependencyBlock_effects|].
  rewrite dependencyBlock_signals. intros Hc.
  apply (signals_allocated_run evs (mount task) Hex) in Hc; [lia|].
  intros c Hc'. cbn in Hc'. set_solver.
Qed.

(** ** The calls of tasks over a run *)

Lemma run_calls evs st :
  calls (effects (run evs st))
  = calls (effects st)
      ++ zip (submitted evs) (seq (scopes st) (length (submitted evs)))
  ∧ scopes (run evs st) = scopes st + length (submitted evs)
  ∧ oldEffectRef (run evs st)
    = from_option Some (oldEffectRef st) (last (submitted evs)).
Proof.
  revert st. induction evs as [|ev evs IH]; intros st; cbn [run submitted].
  - cbn. rewrite app_nil_r. split; [done|]. split; [lia|done].
  - destruct (IH (step ev st)) as (Hcalls & Hscopes & Hold).
    rewrite step_calls, step_scopes in Hcalls.
    rewrite step_scopes in Hscopes. rewrite step_oldEffectRef in Hold.
    destruct ev as [t [|]|a|t value|t error]; try done.
    cbn [length seq]. split; [|split].
    + rewrite Hcalls. by rewrite <- app_assoc.
    + lia.
    + rewrite Hold. by destruct (submitted evs) as [|? ?] using rev_ind;
        [|rewrite app_comm_cons, !last_snoc].
Qed.

(** X6: the task is called once at mount and once for every render whose
    dependencies changed, with the function of that render, and by nothing
    else; each call gets a controller of its own, numbered in order; and the
    function remembered is the one submitted last. *)
Theorem task_called_once_per_change task evs :
  calls (effects (run evs (mount (V:=V) (E:=E) task)))
  = zip (task :: submitted evs) (seq 0 (S (length (submitted evs))))
  ∧ scopes (run evs (mount (V:=V) (E:=E) task)) = S (length (submitted evs))
  ∧ oldEffectRef (run evs (mount (V:=V) (E:=E) task))
    = Some (default task (last (submitted evs))).
Proof.
  destruct (run_calls evs (mount (V:=V) (E:=E) task)) as (Hcalls & Hscopes & Hold).
  split; [|split].
  - by rewrite Hcalls.
  - by rewrite Hscopes.
  - rewrite Hold. cbn. by destruct (last (submitted evs)).
Qed.

(** ** Checkpoints, races and closures that outlive their generation *)

(** X7: [tick] only ever rejects with one of the two symbols, which are the
    values [onrejected] drops: when a task stops at a failed checkpoint and
    lets the failure propagate, the handlers chained on its promise change
    nothing, whenever they run. *)
Theorem failed_checkpoint_is_silent task k st :
  (∀ error, tick k st = rejectedWith error → is_symbol error = true)
  ∧ (∀ st' : Hook, thenCatch task (awaitTick k st) st' = st').
Proof.
  split.
  - intros error. rewrite tick_cases.
    destruct (statuses st !! tick_task k) as [[]|]; by intros [= <-].
  - intros st'. unfold awaitTick. rewrite tick_cases.
    by destruct (statuses st !! tick_task k) as [[]|].
Qed.

(** X8: when [abort] and the settlement of the same running task both
    happen, the order decides as follows.  A fulfilment after [abort] is
    dropped and the result stays aborted; [abort] after a fulfilment, or
    after a rejection with a user error, does nothing and flips no signal; a
    rejection with a user error after [abort], however, is delivered: it
    replaces the aborted result and the entry, and the signal stays
    flipped. *)
Theorem abort_and_settlement_orderings a st :
  (statuses st !! abort_task a = Some running →
   (∀ value : V,
      onfulfilled (abort_task a) value (abort a st) = abort a st
      ∧ result (abort a st) = Aborted
      ∧ abort a (onfulfilled (abort_task a) value st)
        = onfulfilled (abort_task a) value st
      ∧ result (onfulfilled (abort_task a) value st) = Fulfilled value)
   ∧ (∀ e : E,
        result (onrejected (abort_task a) (UserError e) (abort a st))
        = Rejected (UserError e)
        ∧ statuses (onrejected (abort_task a) (UserError e) (abort a st))
            !! abort_task a = Some rejected
        ∧ abort_controller a
          ∈ signals (onrejected (abort_task a) (UserError e) (abort a st))))
  ∧ (∀ e : E,
       abort a (onrejected (abort_task a) (UserError e) st)
       = onrejected (abort_task a) (UserError e) st).
Proof.
  split.
  - intros Hrun. split.
    + intros value. split; [|split; [|split]].
      * apply onfulfilled_discarded. right.
        rewrite (abort_running a st Hrun). cbn. apply lookup_insert_eq.
      * by rewrite (abort_running a st Hrun).
      * apply abort_not_running. unfold onfulfilled. rewrite Hrun.
        rewrite updateResult_statuses. by rewrite decide_True.
      * unfold onfulfilled. by rewrite Hrun.
    + intros e. rewrite onrejected_user. split; [done|]. split.
      * rewrite updateResult_statuses. by rewrite decide_True.
      * rewrite (abort_running a st Hrun). cbn [updateResult setResult signals].
        apply elem_of_union. left. by apply elem_of_singleton.
  - intros e. apply abort_not_running.
    rewrite onrejected_user, updateResult_statuses. by rewrite decide_True.
Qed.

(** X9: the [abort] closure of a generation is dead while another function is
    the current one, but comes back to life when its function is submitted
    again: called then, it turns the new generation's result into aborted and
    makes its [tick] reject, yet it flips the signal of its own old
    controller and leaves the signal handed to the new generation alone. *)
Theorem resubmitted_function_revives_abort st t0 t1 :
  t0 ≠ t1 →
  S (S (scopes st)) ∉ signals st →
  abort (mkAbort t0 (scopes st)) (dependencyBlock t1 (dependencyBlock t0 st))
  = dependencyBlock t1 (dependencyBlock t0 st)
  ∧ result (dependencyBlock t0 (dependencyBlock t1 (dependencyBlock t0 st)))
    = Running (mkAbort t0 (S (S (scopes st))))
  ∧ result (abort (mkAbort t0 (scopes st))
              (dependencyBlock t0 (dependencyBlock t1 (dependencyBlock t0 st))))
    = Aborted
  ∧ (scopes st ∈ signals (abort (mkAbort t0 (scopes st))
              (dependencyBlock t0 (dependencyBlock t1 (dependencyBlock t0 st)))))
  ∧ (S (S (scopes st)) ∉ signals (abort (mkAbort t0 (scopes st))
              (dependencyBlock t0 (dependencyBlock t1 (dependencyBlock t0 st)))))
  ∧ tick (mkTick (S (S (scopes st))) t0)
         (abort (mkAbort t0 (scopes st))
            (dependencyBlock t0 (dependencyBlock t1 (dependencyBlock t0 st))))
    = rejectedWith symbolAborted.
Proof.
  intros Hne Hfree.
  set (s1 := dependencyBlock t0 st). set (s2 := dependencyBlock t1 s1).
  set (s3 := dependencyBlock t0 s2).
  assert (scopes s2 = S (S (scopes st))) as Hs2.
  { unfold s2, s1. by rewrite !dependencyBlock_scopes. }
  assert (signals s3 = signals st) as Hsig.
  { unfold s3, s2, s1. by rewrite !dependencyBlock_signals. }
  assert (statuses s3 !! t0 = Some running) as Hrun.
  { unfold s3. rewrite dependencyBlock_statuses. unfold s2.
    rewrite dependencyBlock_oldEffectRef.
    destruct (decide (Some t1 = Some t0)); [congruence|]. by rewrite decide_True. }
  split; [|split; [|split; [|split; [|split]]]].
  - apply abort_not_running. cbn [abort_task]. unfold s2.
    rewrite dependencyBlock_statuses. unfold s1.
    rewrite dependencyBlock_oldEffectRef. by rewrite decide_True.
  - unfold s3. by rewrite dependencyBlock_result, Hs2.
  - by rewrite (abort_running (mkAbort t0 (scopes st)) s3 Hrun).
  - rewrite (abort_running (mkAbort t0 (scopes st)) s3 Hrun).
    cbn [signals abort_controller]. apply elem_of_union. left.
    by apply elem_of_singleton.
  - rewrite (abort_running (mkAbort t0 (scopes st)) s3 Hrun).
    cbn [signals abort_controller]. rewrite Hsig.
    intros [Heq%elem_of_singleton|Hin]%elem_of_union; [lia | done].
  - rewrite tick_cases, (abort_running (mkAbort t0 (scopes st)) s3 Hrun). cbn.
    by rewrite lookup_insert_eq.
Qed.

Lemma offered_abort_latest_step ev st :
  offered_abort_latest st → offered_abort_latest (step ev st).
Proof.
  intros Hinv a. rewrite step_oldEffectRef, step_scopes.
  destruct ev as [task [|]|a'|task value|task error]; cbn [step useAwait];
    try by apply Hinv.
  - rewrite dependencyBlock_result. by intros [= <-].
  - unfold abort. case_decide; [done | by apply Hinv].
  - unfold onfulfilled.
    destruct (statuses st !! task) as [[]|]; try done; by apply Hinv.
  - destruct error; try done; by apply Hinv.
Qed.

Lemma offered_abort_latest_run evs st :
  offered_abort_latest st → offered_abort_latest (run evs st).
Proof.
  revert st. induction evs as [|ev evs IH]; intros st Hinv; cbn; [done|].
  by apply IH, offered_abort_latest_step.
Qed.

(** X10: in every run the [abort] carried by a running result is the closure
    of the latest submission: its function is the remembered one and its
    controller is the newest. *)
Theorem offered_abort_is_latest task evs a :
  result (run evs (mount (V:=V) (E:=E) task)) = Running a →
  oldEffectRef (run evs (mount (V:=V) (E:=E) task)) = Some (abort_task a)
  ∧ S (abort_controller a) = scopes (run evs (mount (V:=V) (E:=E) task)).
Proof.
  apply (offered_abort_latest_run evs (mount task)).
  intros a' Ha'. unfold mount in *. rewrite dependencyBlock_result in Ha'.
  injection Ha' as <-. split; [done|].
  by rewrite dependencyBlock_scopes.
Qed.

End Runs.

(** * Generations and closures that outlive them *)

Section Generations.
Context {V E : Type}.

Local Abbreviation Hook := (Hook V E).
Local Abbreviation Result := (Result V E).
Local Abbreviation Event := (Event V E).

Implicit Types (st : Hook) (r : Result) (a : Abort) (k : Tick)
  (task : nat) (ev : Event) (evs : list Event).

(** ** Runs in which the tracker mirrors the result *)





(** ** Which generation a closure belongs to *)


Lemma issued_lookup task evs t g :
  issued (V:=V) (E:=E) t g (run evs (mount task))
  ↔ (task :: submitted evs) !! g = Some t.
Proof.
  unfold issued.
  destruct (run_calls evs (mount (V:=V) (E:=E) task)) as (-> & _ & _).
  change (calls (effects (mount (V:=V) (E:=E) task))
            ++ zip (submitted evs)
                   (seq (scopes (mount (V:=V) (E:=E) task)) (length (submitted evs))))
    with (zip (task :: submitted evs) (seq 0 (length (task :: submitted evs)))).
  rewrite elem_of_lookup_zip_with. split.
  - intros (i & x & y & [= -> ->] & Hx & Hy).
    apply lookup_seq in Hy as [-> _]. done.
  - intros Hg. exists g, t, g. split; [done|]. split; [done|].
    apply lookup_seq. split; [done|]. by apply lookup_lt_Some in Hg.
Qed.

Lemma remembered_is_last task evs :
  oldEffectRef (run evs (mount (V:=V) (E:=E) task)) = last (task :: submitted evs)
  ∧ scopes (run evs (mount (V:=V) (E:=E) task)) = length (task :: submitted evs).
Proof.
  destruct (run_calls evs (mount (V:=V) (E:=E) task)) as (_ & -> & ->).
  split; [|done]. rewrite last_cons. cbn. by destruct (last (submitted evs)).
Qed.

Lemma issued_latest_current task evs t g :
  NoDup (task :: submitted evs) →
  issued (V:=V) (E:=E) t g (run evs (mount task)) →
  oldEffectRef (run evs (mount (V:=V) (E:=E) task)) = Some t
  ↔ latest g (run evs (mount (V:=V) (E:=E) task)).
Proof.
  intros Hnd Hg%issued_lookup. unfold latest.
  destruct (remembered_is_last task evs) as [-> ->].
  rewrite last_lookup. cbn [length pred]. split.
  - intros Hlast. f_equal. by apply (NoDup_lookup _ _ _ _ Hnd Hg Hlast).
  - intros [= ->]. done.
Qed.

Lemma resubmitted_entry_running st t0 t1 :
  t0 ≠ t1 →
  statuses (dependencyBlock t0 (dependencyBlock t1 (dependencyBlock t0 st))) !! t0
  = Some running.
Proof.
  intros Hne. rewrite dependencyBlock_statuses, dependencyBlock_oldEffectRef.
  destruct (decide (Some t1 = Some t0)); [congruence|]. by rewrite decide_True.
Qed.

(** ** abort *)


(** C9 as amended: an [abort] closure targets the function and the
    controller of the submission that made it.  It does nothing at all while
    that function has no entry in the tracker, and in every run while another
    function is the remembered one, as right after a submission with another
    function replaced its generation; so in a run whose submissions all pass
    different functions the closure of every generation but the latest is a
    no-op.  When its function is submitted again, however, the old closure
    takes effect on the new generation: the entry and the result become
    aborted and the signal of the closure's own old controller is flipped. *)
Theorem stale_abort_is_noop :
  (∀ a st, statuses st !! abort_task a = None → abort a st = st)
  ∧ (∀ task evs a,
       oldEffectRef (run evs (mount task)) ≠ Some (abort_task a) →
       abort a (run evs (mount task)) = run evs (mount task))
  ∧ (∀ st t1 t2,
       t1 ≠ t2 →
       abort (mkAbort t1 (scopes st)) (dependencyBlock t2 (dependencyBlock t1 st))
       = dependencyBlock t2 (dependencyBlock t1 st))
  ∧ (∀ task evs a,
       NoDup (task :: submitted evs) →
       issued (abort_task a) (abort_controller a) (run evs (mount task)) →
       ¬ latest (abort_controller a) (run evs (mount task)) →
       abort a (run evs (mount task)) = run evs (mount task))
  ∧ (∀ st t0 t1,
       t0 ≠ t1 →
       result (abort (mkAbort t0 (scopes st))
                 (dependencyBlock t0 (dependencyBlock t1 (dependencyBlock t0 st))))
       = Aborted
       ∧ statuses (abort (mkAbort t0 (scopes st))
                     (dependencyBlock t0 (dependencyBlock t1 (dependencyBlock t0 st))))
           !! t0 = Some aborted
       ∧ (scopes st ∈ signals (abort (mkAbort t0 (scopes st))
                     (dependencyBlock t0 (dependencyBlock t1 (dependencyBlock t0 st)))))).
Proof.
  assert (∀ task evs a,
            oldEffectRef (run evs (mount (V:=V) (E:=E) task)) ≠ Some (abort_task a) →
            abort a (run evs (mount task)) = run evs (mount task)) as Hother.
  { intros task evs a Hold. apply abort_not_running. intros Hrun. apply Hold.
    by apply (running_is_current_run evs (mount task)
                (running_is_current_mount task)). }
  split; [|split; [done|split; [|split]]].
  - intros a st Hnone. apply abort_not_running. by rewrite Hnone.
  - intros st t1 t2 Hne. apply abort_not_running. cbn [abort_task].
    rewrite dependencyBlock_statuses, dependencyBlock_oldEffectRef.
    by rewrite decide_True.
  - intros task evs a Hnd Hissued Hold. apply Hother. intros Hcur.
    by apply Hold, (issued_latest_current task evs _ _ Hnd Hissued).
  - intros st t0 t1 Hne.
    rewrite (abort_running (mkAbort t0 (scopes st)) _
               (resubmitted_entry_running st t0 t1 Hne)).
    cbn [result statuses signals abort_task abort_controller].
    split; [done|]. split; [apply lookup_insert_eq|].
    apply elem_of_union. left. by apply elem_of_singleton.
Qed.

(** ** tick across generations *)


End Generations.

(** * Concrete runs *)

Section Concrete.

Local Abbreviation H := (Hook nat nat).
Local Abbreviation mount0 := (mount (V:=nat) (E:=nat) 0).

(** ** The timelines of [index.test.ts] *)

Example handles_fulfilments :
  status (result mount0) = running
  ∧ status (result (run [TaskFulfils 0 1] mount0)) = fulfilled.
Proof. by vm_compute. Qed.

Example handles_rejections :
  status (result (run [TaskRejects 0 (UserError 1)] mount0)) = rejected.
Proof. by vm_compute. Qed.

Example update_before_first_run_settles :
  map (λ evs, status (result (run evs mount0)))
      [ [Render 1 true];
        [Render 1 true; TaskFulfils 0 1];
        [Render 1 true; TaskFulfils 0 1; TaskFulfils 1 2] ]
  = [running; running; fulfilled].
Proof. by vm_compute. Qed.

Example update_after_first_run_settled :
  map (λ evs, status (result (run evs mount0)))
      [ [TaskFulfils 0 1];
        [TaskFulfils 0 1; Render 1 true];
        [TaskFulfils 0 1; Render 1 true; TaskFulfils 1 2] ]
  = [fulfilled; running; fulfilled].
Proof. by vm_compute. Qed.

Example update_after_abort_without_tick :
  map (λ evs, status (result (run evs mount0)))
      [ [CallAbort (mkAbort 0 0)];
        [CallAbort (mkAbort 0 0); TaskFulfils 0 1];
        [CallAbort (mkAbort 0 0); TaskFulfils 0 1; Render 1 true];
        [CallAbort (mkAbort 0 0); TaskFulfils 0 1; Render 1 true; TaskFulfils 1 2] ]
  = [aborted; aborted; running; fulfilled].
Proof. by vm_compute. Qed.

(** ** Where the hook departs from its description *)

(** C1: generation 0 is replaced by generation 1 while it is pending.  Its
    late fulfilment is dropped, but its late rejection with a user error
    replaces the running result of generation 1. *)
Theorem stale_rejection_replaces_result :
  statuses (run [Render 1 true] mount0) !! 0 = None
  ∧ result (run [Render 1 true] mount0) = Running (mkAbort 1 1)
  ∧ result (run [Render 1 true; TaskFulfils 0 5] mount0) = Running (mkAbort 1 1)
  ∧ result (run [Render 1 true; TaskRejects 0 (UserError 7)] mount0)
    = Rejected (UserError 7).
Proof. by vm_compute. Qed.

(** C2: after [abort] took effect a late fulfilment leaves the result
    aborted, but a late rejection with a user error turns it into rejected. *)
Theorem rejection_after_abort_replaces_aborted :
  result (run [CallAbort (mkAbort 0 0)] mount0) = Aborted
  ∧ result (run [CallAbort (mkAbort 0 0); TaskFulfils 0 5] mount0) = Aborted
  ∧ result (run [CallAbort (mkAbort 0 0); TaskRejects 0 (UserError 7)] mount0)
    = Rejected (UserError 7).
Proof. by vm_compute. Qed.

(** C3, as stated, fails: after the fulfilment of the mounted task is
    delivered its function is still tracked, as fulfilled. *)
Lemma settled_entry_stays_tracked :
  result (run [TaskFulfils 0 7] mount0) = Fulfilled 7
  ∧ statuses (run [TaskFulfils 0 7] mount0) !! 0 = Some fulfilled
  ∧ statuses (run [TaskFulfils 0 7] mount0) !! 0 ≠ None
  ∧ ¬ (statuses (run [TaskFulfils 0 7] mount0) !! 0 = Some running
       ∨ statuses (run [TaskFulfils 0 7] mount0) !! 0 = Some aborted).
Proof.
  split; [by vm_compute|]. split; [by vm_compute|].
  split; [by vm_compute|].
  intros [Hrun | Habo]; [vm_compute in Hrun | vm_compute in Habo]; discriminate.
Qed.

(** C8, as stated, fails: the function a successful [tick] resolves with is
    the closure that was called, not another one. *)
Lemma tick_resolves_with_same_closure :
  statuses mount0 !! 0 = Some running
  ∧ tick (mkTick 0 0) mount0 = resolvedWith (mkTick 0 0)
  ∧ ¬ (∃ next, tick (mkTick 0 0) mount0 = resolvedWith next ∧ next ≠ mkTick 0 0).
Proof.
  split; [by vm_compute|]. split; [by vm_compute|].
  intros (next & Hnext & Hne). vm_compute in Hnext. congruence.
Qed.

(** C10, as stated, fails: function 0 is submitted twice in a row; when the
    task then rejects with a user error the result does not stay running, and
    a later [tick] of that generation resolves. *)
Lemma self_invalidated_task_still_rejects :
  oldEffectRef mount0 = Some 0
  ∧ result (run [Render 0 true] mount0) = Running (mkAbort 0 1)
  ∧ statuses (run [Render 0 true] mount0) !! 0 = None
  ∧ result (run [Render 0 true; TaskRejects 0 (UserError 7)] mount0)
    = Rejected (UserError 7)
  ∧ tick (mkTick 1 0) (run [Render 0 true; TaskRejects 0 (UserError 7)] mount0)
    = resolvedWith (mkTick 1 0).
Proof. by vm_compute. Qed.



(** C9, as stated, fails.  Generation 0 is replaced by generation 1, which
    deletes its entry, and function 0 is then submitted again: the [abort]
    closure kept from generation 0 changes the result of generation 2, the
    tracker and a signal. *)
Lemma stale_abort_takes_effect :
  statuses (run [Render 1 true] mount0) !! 0 = None
  ∧ result (run [Render 1 true; Render 0 true] mount0) = Running (mkAbort 0 2)
  ∧ ¬ latest 0 (run [Render 1 true; Render 0 true] mount0)
  ∧ result (abort (mkAbort 0 0) (run [Render 1 true; Render 0 true] mount0))
    = Aborted
  ∧ statuses (abort (mkAbort 0 0) (run [Render 1 true; Render 0 true] mount0)) !! 0
    = Some aborted
  ∧ (0 ∈ signals (abort (mkAbort 0 0) (run [Render 1 true; Render 0 true] mount0)))
  ∧ abort (mkAbort 0 0) (run [Render 1 true; Render 0 true] mount0)
    ≠ run [Render 1 true; Render 0 true] mount0.
Proof.
  split; [reflexivity|]. split; [reflexivity|].
  split; [unfold latest; vm_compute; discriminate|].
  split; [reflexivity|]. split; [reflexivity|]. split; [compute_done|].
  intros Heq. apply (f_equal result) in Heq. vm_compute in Heq. discriminate.
Qed.

(** ** The theorems above at concrete runs *)

Lemma tick_resolves_with_itself_witness :
  statuses mount0 !! 0 = Some running
  ∧ tick (mkTick 0 0) mount0 = resolvedWith (mkTick 0 0).
Proof.
  split; [reflexivity|].
  assert (statuses mount0 !! 0 = Some running) as Hrun by reflexivity.
  exact (proj1 (tick_resolves_with_itself (V:=nat) (E:=nat) (mkTick 0 0) mount0 Hrun)).
Defined.

Lemma settlement_overwrites_entry_witness :
  statuses mount0 !! 0 = Some running
  ∧ statuses (onfulfilled 0 7 mount0) !! 0 = Some fulfilled.
Proof.
  split; [reflexivity|].
  destruct (settlement_overwrites_entry (V:=nat) (E:=nat)) as (_ & Hful & _).
  apply Hful. reflexivity.
Defined.

Lemma symbols_never_surface_witness :
  result (run [TaskRejects 0 (UserError 7)] mount0) = Rejected (UserError 7)
  ∧ UserError 7 ≠ symbolInvalidate (E:=nat) ∧ UserError 7 ≠ symbolAborted (E:=nat).
Proof.
  split; [reflexivity|].
  apply (proj2 (proj2 (symbols_never_surface (V:=nat) (E:=nat)))
           0 [TaskRejects 0 (UserError 7)]).
  reflexivity.
Defined.

Lemma same_task_invalidates_itself_witness :
  oldEffectRef mount0 = Some 0
  ∧ statuses (dependencyBlock 0 mount0) !! 0 = None
  ∧ result (dependencyBlock 0 mount0) = Running (mkAbort 0 1).
Proof.
  split; [reflexivity|].
  destruct (same_task_invalidates_itself (V:=nat) (E:=nat) 0 mount0 eq_refl)
    as (Hnone & Hres & _).
  by split.
Defined.


Lemma stale_abort_is_noop_witness :
  statuses (run [Render 1 true] mount0) !! 0 = None
  ∧ NoDup (0 :: submitted (V:=nat) (E:=nat) [Render 1 true])
  ∧ issued 0 0 (run [Render 1 true] mount0)
  ∧ ¬ latest 0 (run [Render 1 true] mount0)
  ∧ abort (mkAbort 0 0) (run [Render 1 true] mount0) = run [Render 1 true] mount0
  ∧ 0 ≠ 1
  ∧ result (abort (mkAbort 0 0) (run [Render 1 true; Render 0 true] mount0))
    = Aborted.
Proof.
  destruct (stale_abort_is_noop (V:=nat) (E:=nat))
    as (Habsent & _ & _ & Hgen & Hrevived).
  assert (NoDup (0 :: submitted (V:=nat) (E:=nat) [Render 1 true])) as Hnd
    by compute_done.
  assert (issued 0 0 (run [Render 1 true] mount0)) as Hissued by compute_done.
  assert (¬ latest 0 (run [Render 1 true] mount0)) as Hold
    by (unfold latest; vm_compute; discriminate).
  assert (0 ≠ 1) as Hne by lia.
  split; [reflexivity|]. split; [exact Hnd|]. split; [exact Hissued|].
  split; [exact Hold|]. split; [|split; [exact Hne|]].
  - exact (Hgen 0 [Render 1 true] (mkAbort 0 0) Hnd Hissued Hold).
  - exact (proj1 (Hrevived (firstRender 0) 0 1 Hne)).
Defined.


End Concrete.

(** * The further properties at concrete runs *)

Section ConcreteRuns.

Local Abbreviation mount0 := (mount (V:=nat) (E:=nat) 0).

Lemma running_entry_unique_witness :
  statuses (run [Render 1 true] mount0) !! 1 = Some running ∧ 1 = 1.
Proof.
  assert (statuses (run [Render 1 true] mount0) !! 1 = Some running) as Hrun
    by reflexivity.
  split; [exact Hrun|].
  exact (running_entry_unique (V:=nat) (E:=nat) 0 [Render 1 true] 1 1 Hrun Hrun).
Defined.

Lemma tracker_holds_only_current_witness :
  no_stale_rejections [Render 1 true; TaskRejects 1 (UserError 3)] mount0 = true
  ∧ size (statuses (run [Render 1 true; TaskRejects 1 (UserError 3)] mount0)) ≤ 1.
Proof.
  split; [reflexivity|].
  apply (tracker_holds_only_current (V:=nat) (E:=nat) 0
           [Render 1 true; TaskRejects 1 (UserError 3)]).
  reflexivity.
Defined.

Lemma stale_rejection_entry_persists_witness :
  oldEffectRef (run [Render 1 true] mount0) ≠ Some 0
  ∧ is_Some (statuses (run [Render 2 true; TaskFulfils 2 1]
                         (onrejected 0 (UserError 7) (run [Render 1 true] mount0)))
             !! 0).
Proof.
  assert (oldEffectRef (run [Render 1 true] mount0) ≠ Some 0) as Hold
    by (vm_compute; discriminate).
  split; [exact Hold|].
  apply (stale_rejection_entry_persists (V:=nat) (E:=nat)
           (run [Render 1 true] mount0) 0 7 [Render 2 true; TaskFulfils 2 1] Hold).
  cbn. intros Hin. apply list_elem_of_singleton in Hin. discriminate.
Defined.

Lemma signals_flipped_only_by_abort_witness :
  aborters (V:=nat) (E:=nat) [Render 1 true; TaskFulfils 1 3] = []
  ∧ signals (run [Render 1 true; TaskFulfils 1 3] mount0) = signals mount0.
Proof.
  split; [reflexivity|].
  destruct (signals_flipped_only_by_abort (V:=nat) (E:=nat)
              [Render 1 true; TaskFulfils 1 3] mount0) as (_ & _ & Hsame).
  apply Hsame. reflexivity.
Defined.

Lemma new_signal_not_aborted_witness :
  aborts_exist [CallAbort (mkAbort 0 0)] mount0 = true
  ∧ scopes (run [CallAbort (mkAbort 0 0)] mount0)
    ∉ signals (dependencyBlock 1 (run [CallAbort (mkAbort 0 0)] mount0)).
Proof.
  split; [reflexivity|].
  apply (new_signal_not_aborted (V:=nat) (E:=nat) 0 [CallAbort (mkAbort 0 0)] 1).
  reflexivity.
Defined.

Lemma failed_checkpoint_is_silent_witness :
  tick (mkTick 0 0) (abort (mkAbort 0 0) mount0) = rejectedWith symbolAborted
  ∧ is_symbol (symbolAborted (E:=nat)) = true.
Proof.
  split; [reflexivity|].
  apply (proj1 (failed_checkpoint_is_silent (V:=nat) (E:=nat) 0 (mkTick 0 0)
                  (abort (mkAbort 0 0) mount0))).
  reflexivity.
Defined.

Lemma abort_and_settlement_orderings_witness :
  statuses mount0 !! 0 = Some running
  ∧ result (onfulfilled 0 5 (abort (mkAbort 0 0) mount0)) = Aborted
  ∧ result (abort (mkAbort 0 0) (onfulfilled 0 5 mount0)) = Fulfilled 5
  ∧ result (onrejected 0 (UserError 7) (abort (mkAbort 0 0) mount0))
    = Rejected (UserError 7).
Proof.
  assert (statuses mount0 !! 0 = Some running) as Hrun by reflexivity.
  split; [exact Hrun|].
  destruct (proj1 (abort_and_settlement_orderings (V:=nat) (E:=nat)
                     (mkAbort 0 0) mount0) Hrun) as [Hful Hrej].
  destruct (Hful 5) as (Hdrop & Habo & Hinert & Hdone).
  destruct (Hrej 7) as (Hdelivered & _).
  cbn [abort_task] in *. rewrite Hdrop, Hinert. by split; [|split].
Defined.

Lemma resubmitted_function_revives_abort_witness :
  0 ≠ 1 ∧ (2 ∉ signals (firstRender (V:=nat) (E:=nat) 0))
  ∧ result (abort (mkAbort 0 0) (run [Render 1 true; Render 0 true] mount0)) = Aborted
  ∧ (2 ∉ signals (abort (mkAbort 0 0) (run [Render 1 true; Render 0 true] mount0))).
Proof.
  assert (0 ≠ 1) as Hne by lia.
  assert (2 ∉ signals (firstRender (V:=nat) (E:=nat) 0)) as Hfree
    by (cbn; apply not_elem_of_empty).
  split; [exact Hne|]. split; [exact Hfree|].
  destruct (resubmitted_function_revives_abort (V:=nat) (E:=nat)
              (firstRender 0) 0 1 Hne Hfree) as (_ & _ & Habo & _ & Hkeep & _).
  by split.
Defined.

Lemma offered_abort_is_latest_witness :
  result (run [Render 1 true] mount0) = Running (mkAbort 1 1)
  ∧ oldEffectRef (run [Render 1 true] mount0) = Some 1
  ∧ 2 = scopes (run [Render 1 true] mount0).
Proof.
  split; [reflexivity|].
  apply (offered_abort_is_latest (V:=nat) (E:=nat) 0 [Render 1 true] (mkAbort 1 1)).
  reflexivity.
Defined.

End ConcreteRuns.
